(** * lightsail-fastapi: the todo service of [main.py]

    A shallow embedding of the request handlers of [main.py] (FastAPI on
    top of psycopg2) and the properties of its specification.

    Modelling decisions, all taken from the source text:

    - a Python [str] is a list of Unicode code points; [str.strip()]
      removes the code points for which [str.isspace()] holds;
    - the table [todos (id SERIAL PRIMARY KEY, title TEXT NOT NULL,
      done BOOLEAN NOT NULL DEFAULT FALSE)] is a finite map from [id] to
      [(title, done)]: the primary key makes the id unique, the other two
      columns are never null;  [SERIAL] is a counter, [todos_id_seq];
    - a psycopg2 connection runs one transaction at a time: statements
      work on an uncommitted copy of the table, [commit] publishes it,
      [rollback] drops it;  the [with conn:] block commits when its body
      returns and rolls back when its body raises, and does nothing else
      to the connection;
    - the handlers run in a state-and-exception monad over the [World]
      (the database server and the connections made so far);
    - FastAPI turns a returned value into the status code of the route
      decorator, an [HTTPException] into its own status code and any
      other exception into 500.

    - the connection speaks UTF-8: the driver turns a parameter into a
      literal before anything is sent and raises [UnicodeEncodeError] for
      a lone surrogate and [ValueError] for a NUL character;
    - [id SERIAL] is a four-byte integer: [nextval] fails once the
      sequence has reached 2147483647.

    Requests are handled one at a time; the table [todos] exists. *)

From stdpp Require Import base option list sorting gmap strings.
From Stdlib Require Import ZArith NArith Lia.

Local Open Scope Z_scope.

(** ** Python strings *)

(** A [str]: a sequence of code points. *)
Abbreviation str := (list N).

(** [str.isspace()] on one code point: the white-space table of CPython
    ([_PyUnicode_IsWhitespace]). *)
Definition isspace (c : N) : bool :=
  ((0x09 <=? c) && (c <=? 0x0D) || (0x1C <=? c) && (c <=? 0x20)
   || (c =? 0x85) || (c =? 0xA0) || (c =? 0x1680)
   || (0x2000 <=? c) && (c <=? 0x200A)
   || (c =? 0x2028) || (c =? 0x2029) || (c =? 0x202F) || (c =? 0x205F)
   || (c =? 0x3000))%N.

(** [s.lstrip()]. *)
Fixpoint lstrip (s : str) : str :=
  match s with
  | [] => []
  | c :: s' => if isspace c then lstrip s' else s
  end.

(** [s.rstrip()]. *)
Fixpoint rstrip (s : str) : str :=
  match s with
  | [] => []
  | c :: s' =>
      match rstrip s' with
      | [] => if isspace c then [] else [c]
      | r => c :: r
      end
  end.

(** [s.strip()]: white space is dropped at both ends. *)
Definition strip (s : str) : str := rstrip (lstrip s).

(** Truth value of a [str] ([if s:]): the empty string is false. *)
Definition truthy (s : str) : bool :=
  match s with [] => false | _ :: _ => true end.

(** The code points of an ASCII literal, to write examples. *)
Definition u (s : string) : str :=
  Ascii.N_of_ascii <$> String.list_ascii_of_string s.

(** ** Pydantic models *)

Module TodoIn.
Record t := mk { title : str }.
End TodoIn.

Module TodoOut.
Record t := mk { id : Z; title : str; done : bool }.
End TodoOut.

(** ** The database *)

(** A row of [todos] as a [RealDictCursor] hands it out: the columns
    [id], [title], [done] by name. *)
Module Row.
Record t := mk { id : Z; title : str; done : bool }.
End Row.

(** Content of table [todos]: [id ↦ (title, done)]. *)
Abbreviation table := (gmap Z (str * bool)).

(** The statements the handlers send, indexed by the type of their
    result rows. *)
Inductive sql : Type → Type :=
  | SELECT_1 : sql Z
  | SELECT_todos_ORDER_BY_id_DESC : sql Row.t
  | INSERT_INTO_todos_RETURNING (title : str) : sql Row.t
  | UPDATE_todos_SET_done_NOT_done_RETURNING (id : Z) : sql Row.t
  | DELETE_FROM_todos (id : Z) : sql Empty_set.

(** What the server answers to a statement. *)
Record answer (R : Type) := Answer {
  ans_rows : list R;        (* result set *)
  ans_rowcount : Z;         (* rows produced or affected *)
  ans_table : table;        (* table after the statement *)
  ans_seq : Z;              (* sequence after the statement *)
}.
Arguments Answer {R}.
Arguments ans_rows {R}.
Arguments ans_rowcount {R}.
Arguments ans_table {R}.
Arguments ans_seq {R}.

Definition row_of (kv : Z * (str * bool)) : Row.t :=
  Row.mk kv.1 kv.2.1 kv.2.2.

(** [ORDER BY id DESC]: larger ids first. *)
Definition id_desc (a b : Row.t) : Prop := Row.id b ≤ Row.id a.

Global Instance id_desc_dec a b : Decision (id_desc a b).
Proof. unfold id_desc. apply _. Defined.

Definition select_order_by_id_desc (t : table) : list Row.t :=
  merge_sort id_desc (row_of <$> map_to_list t).

(** Semantics of one statement on the table and the sequence; [inl] is
    the server's error message with the sequence after the failed
    statement ([nextval] is not undone). *)
Definition run {R} (q : sql R) (t : table) (seq : Z)
  : string * Z + answer R :=
  match q in sql R return string * Z + answer R with
  | SELECT_1 => inr (Answer [1] 1 t seq)
  | SELECT_todos_ORDER_BY_id_DESC =>
      let rs := select_order_by_id_desc t in
      inr (Answer rs (Z.of_nat (length rs)) t seq)
  | INSERT_INTO_todos_RETURNING title =>
      (* id: nextval('todos_id_seq'), an int4; done: FALSE *)
      if 2147483647 <=? seq then
        inl ("nextval: reached maximum value of sequence (2147483647)"%string,
             seq)
      else
      let i := seq + 1 in
      match t !! i with
      | Some _ =>
          inl ("duplicate key value violates unique constraint"%string, i)
      | None =>
          inr (Answer [Row.mk i title false] 1 (<[i := (title, false)]> t) i)
      end
  | UPDATE_todos_SET_done_NOT_done_RETURNING i =>
      match t !! i with
      | Some (title, done) =>
          inr (Answer [Row.mk i title (negb done)] 1
                 (<[i := (title, negb done)]> t) seq)
      | None => inr (Answer [] 0 t seq)
      end
  | DELETE_FROM_todos i =>
      match t !! i with
      | Some _ => inr (Answer [] 1 (delete i t) seq)
      | None => inr (Answer [] 0 t seq)
      end
  end.

(** ** The world: server and connections *)

Record World := mkWorld {
  (* [Some msg]: the server cannot be reached, connecting fails with msg *)
  fault : option string;
  (* committed content of table todos *)
  todos : table;
  (* last value handed out by the sequence behind [id SERIAL] *)
  todos_id_seq : Z;
  (* the open connections, by handle: every connection made so far, as
     the source closes none; [None]: no transaction in progress,
     [Some t]: a transaction whose uncommitted table is [t] *)
  connections : list (option table);
}.

Definition set_todos (t : table) (w : World) : World :=
  mkWorld (fault w) t (todos_id_seq w) (connections w).
Definition set_seq (n : Z) (w : World) : World :=
  mkWorld (fault w) (todos w) n (connections w).
Definition set_connections (cs : list (option table)) (w : World) : World :=
  mkWorld (fault w) (todos w) (todos_id_seq w) cs.

(** ** Exceptions and the handler monad *)

Inductive exn :=
  | HTTPException (status_code : Z) (detail : string)
  | psycopg2_Error (pgerror : string)
  | ValueError (msg : string)
  | UnicodeEncodeError (msg : string).

Inductive outcome (A : Type) :=
  | Return (a : A)
  | Raise (e : exn).
Arguments Return {A}.
Arguments Raise {A}.

Definition M (A : Type) : Type := World → outcome A * World.

Global Instance M_ret : MRet M := λ A a w, (Return a, w).
Global Instance M_bind : MBind M := λ A B f m w,
  match m w with
  | (Return a, w') => f a w'
  | (Raise e, w') => (Raise e, w')
  end.

Definition raise {A} (e : exn) : M A := λ w, (Raise e, w).

(** [try: body except psycopg2.Error as e: handler e]. *)
Definition try_except_psycopg2_Error {A} (body : M A) (handler : string → M A)
  : M A := λ w,
  match body w with
  | (Raise (psycopg2_Error e), w') => handler e w'
  | r => r
  end.

(** [with cm as x: body]: [__exit__] runs whether the body returns or
    raises, and the exception goes on. *)
Definition with_ {X A} (cm : M X) (exit_ : X → option exn → M unit)
    (body : X → M A) : M A :=
  x ← cm;
  λ w, match body x w with
       | (Return a, w') => (exit_ x None ;; mret a) w'
       | (Raise e, w') => (exit_ x (Some e) ;; raise e) w'
       end.

(** ** psycopg2: connections and cursors *)

(** [get_conn()]: [psycopg2.connect(...)] makes a new connection, or
    raises when the server cannot be reached. *)
Definition get_conn : M nat := λ w,
  match fault w with
  | Some msg => (Raise (psycopg2_Error msg), w)
  | None =>
      (Return (length (connections w)),
       set_connections (connections w ++ [None]) w)
  end.

Definition connection_closed : exn := psycopg2_Error "connection already closed".

(** [conn.commit()]. *)
Definition commit (conn : nat) : M unit := λ w,
  match connections w !! conn with
  | None => (Raise connection_closed, w)
  | Some None => (Return (), w)
  | Some (Some t) =>
      (Return (), set_connections (<[conn := None]> (connections w)) (set_todos t w))
  end.

(** [conn.rollback()]. *)
Definition rollback (conn : nat) : M unit := λ w,
  match connections w !! conn with
  | None => (Raise connection_closed, w)
  | Some _ => (Return (), set_connections (<[conn := None]> (connections w)) w)
  end.

(** [conn.__exit__]: commit if the block returned, roll back if it
    raised. *)
Definition connection_exit (conn : nat) (exc : option exn) : M unit :=
  match exc with
  | None => commit conn
  | Some _ => rollback conn
  end.

(** A cursor: its connection and the result of its last [execute]. *)
Record cursor (R : Type) := mkCursor {
  connection : nat;
  rows : list R;
  rowcount : Z;
}.
Arguments mkCursor {R}.
Arguments connection {R}.
Arguments rows {R}.
Arguments rowcount {R}.

(** [conn.cursor()] (with or without [cursor_factory=RealDictCursor]:
    rows are read by column name in both models). *)
Definition new_cursor (conn : nat) : M (cursor Empty_set) :=
  mret (mkCursor conn [] (-1)).

(** [cur.__exit__]: closes the cursor, the connection is not touched. *)
Definition cursor_exit {R} (cur : cursor R) (exc : option exn) : M unit :=
  mret ().

(** A lone surrogate, which UTF-8 cannot encode (a [str] has no code
    point above 0x10FFFF; a larger number is turned down with them). *)
Definition not_encodable (c : N) : bool :=
  ((0xD800 <=? c) && (c <=? 0xDFFF) || (0x10FFFF <? c))%N.

(** A [str] parameter made into a literal ([%s]): it is encoded for the
    connection first, then checked for NUL. [None]: the literal is
    made. *)
Definition adapt_str (s : str) : option exn :=
  if existsb not_encodable s then
    Some (UnicodeEncodeError "'utf-8' codec can't encode character: surrogates not allowed")
  else if existsb (N.eqb 0) s then
    Some (ValueError "A string literal cannot contain NUL (0x00) characters.")
  else None.

(** The parameters of a statement made into literals; an [int] always
    can be. *)
Definition adapt {R} (q : sql R) : option exn :=
  match q with
  | INSERT_INTO_todos_RETURNING title => adapt_str title
  | _ => None
  end.

(** [cur.execute(q)]: the parameters are made into literals, which may
    raise before anything is sent; then the first statement of a
    connection opens its transaction on the committed table. *)
Definition execute {R0 R} (cur : cursor R0) (q : sql R) : M (cursor R) := λ w,
  let conn := connection cur in
  match connections w !! conn with
  | None => (Raise connection_closed, w)
  | Some txn =>
      match adapt q with
      | Some e => (Raise e, w)
      | None =>
      let t := default (todos w) txn in
      match run q t (todos_id_seq w) with
      | inl (msg, seq) =>
          (Raise (psycopg2_Error msg),
           set_seq seq (set_connections (<[conn := Some t]> (connections w)) w))
      | inr a =>
          (Return (mkCursor conn (ans_rows a) (ans_rowcount a)),
           set_seq (ans_seq a)
             (set_connections (<[conn := Some (ans_table a)]> (connections w)) w))
      end
      end
  end.

(** [cur.fetchone()]: the next row, or [None]. *)
Definition fetchone {R} (cur : cursor R) : option R * cursor R :=
  match rows cur with
  | [] => (None, cur)
  | r :: rs => (Some r, mkCursor (connection cur) rs (rowcount cur))
  end.

(** [cur.fetchall()]: all remaining rows. *)
Definition fetchall {R} (cur : cursor R) : list R * cursor R :=
  (rows cur, mkCursor (connection cur) [] (rowcount cur)).

(** ** The handlers of [main.py] *)

Record Health := mkHealth { service : string; database : string }.
Record Root := mkRoot { message : string; docs : string }.

(** [health()]. *)
Definition health : M Health :=
  db_status ←
    try_except_psycopg2_Error
      (with_ get_conn connection_exit (λ conn,
         with_ (new_cursor conn) cursor_exit (λ cur,
           cur ← execute cur SELECT_1;
           let '(_, cur) := fetchone cur in
           mret ())) ;;
       mret "ok"%string)
      (λ e, mret ("error: " +:+ e));
  mret (mkHealth "ok" db_status).

(** [root()]. *)
Definition root : M Root :=
  mret (mkRoot "Lightsail FastAPI Demo" "/docs").

Definition TodoOut_of (r : Row.t) : TodoOut.t :=
  TodoOut.mk (Row.id r) (Row.title r) (Row.done r).

(** [list_todos()]. *)
Definition list_todos : M (list TodoOut.t) :=
  with_ get_conn connection_exit (λ conn,
    with_ (new_cursor conn) cursor_exit (λ cur,
      cur ← execute cur SELECT_todos_ORDER_BY_id_DESC;
      let '(rows, cur) := fetchall cur in
      mret (TodoOut_of <$> rows))).

(** [create_todo(todo)]. *)
Definition create_todo (todo : TodoIn.t) : M TodoOut.t :=
  if negb (truthy (strip (TodoIn.title todo))) then
    raise (HTTPException 400 "título é obrigatório")
  else
    with_ get_conn connection_exit (λ conn,
      with_ (new_cursor conn) cursor_exit (λ cur,
        cur ← execute cur (INSERT_INTO_todos_RETURNING (strip (TodoIn.title todo)));
        let '(row, cur) := fetchone cur in
        commit conn ;;
        match row with
        | None => raise (HTTPException 500 "falha ao inserir registro")
        | Some row => mret (TodoOut_of row)
        end)).

(** [toggle_done(todo_id)]. *)
Definition toggle_done (todo_id : Z) : M TodoOut.t :=
  with_ get_conn connection_exit (λ conn,
    with_ (new_cursor conn) cursor_exit (λ cur,
      cur ← execute cur (UPDATE_todos_SET_done_NOT_done_RETURNING todo_id);
      let '(row, cur) := fetchone cur in
      match row with
      | None => raise (HTTPException 404 "não encontrado")
      | Some row =>
          commit conn ;;
          mret (TodoOut_of row)
      end)).

(** [delete_todo(todo_id)]. *)
Definition delete_todo (todo_id : Z) : M unit :=
  with_ get_conn connection_exit (λ conn,
    with_ (new_cursor conn) cursor_exit (λ cur,
      cur ← execute cur (DELETE_FROM_todos todo_id);
      if rowcount cur =? 0 then
        raise (HTTPException 404 "não encontrado")
      else
        commit conn ;;
        mret ())).

(** ** The application: routes and responses *)

Inductive content :=
  | no_body
  | json_todo (t : TodoOut.t)
  | json_todos (l : list TodoOut.t)
  | json_health (h : Health)
  | json_root (r : Root)
  | json_detail (detail : string)
  | json_validation_errors
  | internal_server_error.

Record Response := mkResponse { status_code : Z; body : content }.

(** A route: the decorator's [status_code] for a returned value, the
    status of an [HTTPException], 500 for any other exception. *)
Definition route {A} (code : Z) (enc : A → content) (handler : M A)
  : World → Response * World := λ w,
  match handler w with
  | (Return a, w') => (mkResponse code (enc a), w')
  | (Raise (HTTPException c d), w') => (mkResponse c (json_detail d), w')
  | (Raise _, w') => (mkResponse 500 internal_server_error, w')
  end.

Inductive Request :=
  | GET_health
  | GET_root
  | GET_todos
  | POST_todos (todo : TodoIn.t)
  | PATCH_todos (todo_id : Z)
  | DELETE_todos (todo_id : Z).

Definition app (r : Request) : World → Response * World :=
  match r with
  | GET_health => route 200 json_health health
  | GET_root => route 200 json_root root
  | GET_todos => route 200 json_todos list_todos
  | POST_todos todo => route 201 json_todo (create_todo todo)
  | PATCH_todos todo_id => route 200 json_todo (toggle_done todo_id)
  | DELETE_todos todo_id => route 204 (λ _, no_body) (delete_todo todo_id)
  end.

(** What reaches the application.  FastAPI checks the body and the path
    parameter against the annotations of the handler ([todo: TodoIn],
    [todo_id: int]) before calling it: a request that fails the check
    is answered 422 and the handler is not called.  [Request] above is
    what a handler receives, a request that has passed. *)
Inductive Inbound :=
  | validated (r : Request)
  | POST_todos_invalid_body
  | PATCH_todos_invalid_id
  | DELETE_todos_invalid_id.

Definition fastapi (i : Inbound) : World → Response * World :=
  match i with
  | validated r => app r
  | POST_todos_invalid_body | PATCH_todos_invalid_id | DELETE_todos_invalid_id =>
      λ w, (mkResponse 422 json_validation_errors, w)
  end.

(** The routes of [main.py], by handler. *)
Inductive Endpoint :=
  | ep_health | ep_root | ep_list_todos
  | ep_create_todo | ep_toggle_done | ep_delete_todo.

Definition endpoint_of (i : Inbound) : Endpoint :=
  match i with
  | validated GET_health => ep_health
  | validated GET_root => ep_root
  | validated GET_todos => ep_list_todos
  | validated (POST_todos _) | POST_todos_invalid_body => ep_create_todo
  | validated (PATCH_todos _) | PATCH_todos_invalid_id => ep_toggle_done
  | validated (DELETE_todos _) | DELETE_todos_invalid_id => ep_delete_todo
  end.

(** The state after start-up on a new database: [lifespan] has created
    the empty table. *)
Definition started : World := mkWorld None ∅ 0 [].

(** ** Notions used by the properties *)

(** The world after a request that made one connection, ended its
    transaction, and left the table as [t] and the sequence at [n]. *)
Definition served (t : table) (n : Z) (w : World) : World :=
  mkWorld (fault w) t n (connections w ++ [None]).

(** Every stored id was handed out by the sequence.  It holds after
    start-up and every request keeps it. *)
Definition ids_assigned (w : World) : Prop :=
  map_Forall (λ i _, i ≤ todos_id_seq w) (todos w).

Global Instance ids_assigned_dec w : Decision (ids_assigned w).
Proof. unfold ids_assigned. apply _. Defined.

(** The world after a series of requests. *)
Definition serve (rs : list Request) (w : World) : World :=
  foldl (λ w r, (app r w).2) w rs.





(** A world for the examples: two todos created after start-up. *)
Definition two_todos : World :=
  serve [POST_todos (TodoIn.mk (u " buy milk "));
         POST_todos (TodoIn.mk (u "walk  dog"))]
    started.

(** [POST /todos] with [todo], then [POST /todos] with the title of
    record [o]. *)
Definition post_again (todo : TodoIn.t) (o : TodoOut.t) (w : World)
  : Response * World :=
  app (POST_todos (TodoIn.mk (TodoOut.title o))) (app (POST_todos todo) w).2.

(** A world whose sequence has handed out its last value. *)
Definition sequence_exhausted : World := mkWorld None ∅ 2147483647 [].

(** ** Start-up *)

(** [cur.execute(...)] for a statement without parameters, given by
    what the server does with it on the table and the sequence;
    [execute cur q] is [execute_stmt cur (run q)] once the parameters of
    [q] are made into literals. *)
Definition execute_stmt {R0 R} (cur : cursor R0)
    (stmt : table → Z → string * Z + answer R) : M (cursor R) := λ w,
  let conn := connection cur in
  match connections w !! conn with
  | None => (Raise connection_closed, w)
  | Some txn =>
      let t := default (todos w) txn in
      match stmt t (todos_id_seq w) with
      | inl (msg, seq) =>
          (Raise (psycopg2_Error msg),
           set_seq seq (set_connections (<[conn := Some t]> (connections w)) w))
      | inr a =>
          (Return (mkCursor conn (ans_rows a) (ans_rowcount a)),
           set_seq (ans_seq a)
             (set_connections (<[conn := Some (ans_table a)]> (connections w)) w))
      end
  end.

(** [lifespan(_app)] up to its [yield] (nothing is done after it).  What
    [CREATE TABLE IF NOT EXISTS todos (...)] does is the server's
    business and is a parameter; [stdout] collects the printed lines. *)
Definition lifespan
    (CREATE_TABLE_IF_NOT_EXISTS_todos : table → Z → string * Z + answer Empty_set)
    (w : World) (stdout : list string) : outcome unit * World * list string :=
  match
    with_ get_conn connection_exit (λ conn,
      with_ (new_cursor conn) cursor_exit (λ cur,
        cur ← execute_stmt cur CREATE_TABLE_IF_NOT_EXISTS_todos;
        commit conn)) w
  with
  | (Raise (psycopg2_Error e), w') =>
      (Return (), w', stdout ++ ["[startup] DB init error: " +:+ e])
  | (o, w') => (o, w', stdout)
  end.

(** [TodoOut] with the done flag negated. *)
Definition flipped (o : TodoOut.t) : TodoOut.t :=
  TodoOut.mk (TodoOut.id o) (TodoOut.title o) (negb (TodoOut.done o)).

(** A world whose server cannot be reached. *)
Definition server_down : World :=
  mkWorld (Some "connection refused"%string) (todos two_todos) 2 [].

(** What [GET /todos] lists for a table. *)
Definition listing (t : table) : list TodoOut.t :=
  TodoOut_of <$> select_order_by_id_desc t.

(** The records of a listing other than the one of id [i]. *)
Definition without (i : Z) (l : list TodoOut.t) : list TodoOut.t :=
  filter (λ o, TodoOut.id o ≠ i) l.

(** A listing with the record of id [i] toggled. *)
Definition toggled (i : Z) (l : list TodoOut.t) : list TodoOut.t :=
  (λ o, if decide (TodoOut.id o = i) then flipped o else o) <$> l.

(** * Properties *)

(** ** Stripping *)

Lemma lstrip_spec s :
  ∃ l, s = l ++ lstrip s ∧ forallb isspace l = true ∧
       (∀ c r, lstrip s = c :: r → isspace c = false).
Proof.
  induction s as [|c s (l & Hs & Hl & Hh)]; simpl.
  - exists []. split_and!; [done..|]. intros; discriminate.
  - destruct (isspace c) eqn:Hc.
    + exists (c :: l). simpl. rewrite Hc, Hl. split_and!; [congruence|done|done].
    + exists []. split_and!; [done..|]. intros ?? [= <- _]. done.
Qed.

Lemma rstrip_spec s :
  ∃ r, s = rstrip s ++ r ∧ forallb isspace r = true ∧
       (∀ c, last (rstrip s) = Some c → isspace c = false) ∧
       head (rstrip s) = (if rstrip s is [] then None else head s).
Proof.
  induction s as [|c s (r & Hs & Hr & Hl & Hh)]; simpl.
  - exists []. split_and!; [done..| |done]. intros; discriminate.
  - destruct (rstrip s) as [|c' s'] eqn:E.
    + destruct (isspace c) eqn:Hc.
      * exists (c :: r). simpl in *. rewrite Hc, Hr. split_and!; [congruence|done| |done].
        intros; discriminate.
      * exists r. simpl in *. split_and!; [congruence|done| |done].
        intros ? [= <-]. done.
    + exists r. split_and!; [simpl in *; congruence|done| |done].
      intros c0 H. apply Hl. by rewrite last_cons_cons in H.
Qed.

(** [strip] cuts a white-space prefix and a white-space suffix, keeps
    what is between them, and leaves no white space at either end. *)
Lemma strip_spec s :
  ∃ l r, s = l ++ strip s ++ r ∧
         forallb isspace l = true ∧ forallb isspace r = true ∧
         (∀ c, head (strip s) = Some c → isspace c = false) ∧
         (∀ c, last (strip s) = Some c → isspace c = false).
Proof.
  destruct (lstrip_spec s) as (l & Hs & Hl & Hh).
  destruct (rstrip_spec (lstrip s)) as (r & Hs' & Hr & Hlast & Hhead).
  exists l, r. unfold strip. split_and!; [congruence|done|done| |done].
  intros c Hc. rewrite Hhead in Hc.
  destruct (rstrip (lstrip s)); [done|].
  destruct (lstrip s) as [|c0 s0] eqn:E; [done|].
  simpl in Hc. injection Hc as ->. by eapply Hh.
Qed.

Lemma lstrip_all_space s : forallb isspace s = true → lstrip s = [].
Proof.
  induction s as [|c s IH]; simpl; [done|].
  intros [Hc Hs]%andb_prop. rewrite Hc. auto.
Qed.

(** A title is falsy after [strip] exactly when it is empty or all
    white space. *)
Lemma strip_nil_iff s : strip s = [] ↔ forallb isspace s = true.
Proof.
  split.
  - intros H. destruct (strip_spec s) as (l & r & Hs & Hl & Hr & _).
    rewrite H in Hs. simpl in Hs. rewrite Hs, forallb_app, Hl, Hr. done.
  - intros H. unfold strip. by rewrite lstrip_all_space.
Qed.

Lemma truthy_strip s : truthy (strip s) = negb (forallb isspace s).
Proof.
  destruct (forallb isspace s) eqn:E.
  - apply strip_nil_iff in E. by rewrite E.
  - destruct (strip s) eqn:E'; [|done].
    apply strip_nil_iff in E'. congruence.
Qed.

(** ** Running the handlers *)

Section fresh_connection.
Context {A : Type} (l : list A) (x y : A).

Lemma lookup_fresh : (l ++ [x]) !! length l = Some x.
Proof. by rewrite list_lookup_middle. Qed.

Lemma insert_fresh : <[length l := y]> (l ++ [x]) = l ++ [y].
Proof.
  rewrite insert_app_r_alt by lia.
  by replace (length l - length l)%nat with 0%nat by lia.
Qed.
End fresh_connection.

(** Unfolds one handler down to the driver and the server. *)
Ltac step_handler :=
  unfold app, route, health, root, list_todos, create_todo, toggle_done,
    delete_todo, with_, try_except_psycopg2_Error, get_conn, new_cursor,
    cursor_exit, connection_exit, execute, commit, rollback, raise,
    fetchone, fetchall, set_todos, set_seq, set_connections,
    mbind, mret, M_bind, M_ret;
  simpl;
  rewrite ?truthy_strip.

(** Runs the statements on the connection the handler has just made. *)
Ltac on_fresh_connection :=
  repeat (rewrite ?lookup_fresh, ?insert_fresh; simpl).

Lemma app_unreachable r w msg :
  fault w = Some msg →
  app r w =
    (match r with
     | GET_health => mkResponse 200 (json_health (mkHealth "ok" ("error: " +:+ msg)))
     | GET_root => mkResponse 200 (json_root (mkRoot "Lightsail FastAPI Demo" "/docs"))
     | POST_todos todo =>
         if forallb isspace (TodoIn.title todo)
         then mkResponse 400 (json_detail "título é obrigatório")
         else mkResponse 500 internal_server_error
     | _ => mkResponse 500 internal_server_error
     end, w).
Proof.
  intros Hf. destruct r; step_handler; rewrite ?truthy_strip, ?Hf; try done.
  by destruct (forallb isspace _); simpl; rewrite ?Hf.
Qed.

Section reachable_server.
Context (w : World) (Hup : fault w = None).

Lemma health_run :
  health w = (Return (mkHealth "ok" "ok"), served (todos w) (todos_id_seq w) w).
Proof. step_handler. rewrite Hup. on_fresh_connection. unfold served. by rewrite Hup. Qed.

Lemma list_todos_run :
  list_todos w =
    (Return (TodoOut_of <$> select_order_by_id_desc (todos w)),
     served (todos w) (todos_id_seq w) w).
Proof. step_handler. rewrite Hup. on_fresh_connection. unfold served. by rewrite Hup. Qed.

Lemma create_todo_run todo :
  forallb isspace (TodoIn.title todo) = false →
  create_todo todo w =
    let i := todos_id_seq w + 1 in
    let title := strip (TodoIn.title todo) in
    if existsb not_encodable title then
      (Raise (UnicodeEncodeError
                "'utf-8' codec can't encode character: surrogates not allowed"),
       served (todos w) (todos_id_seq w) w)
    else if existsb (N.eqb 0) title then
      (Raise (ValueError "A string literal cannot contain NUL (0x00) characters."),
       served (todos w) (todos_id_seq w) w)
    else if 2147483647 <=? todos_id_seq w then
      (Raise (psycopg2_Error "nextval: reached maximum value of sequence (2147483647)"),
       served (todos w) (todos_id_seq w) w)
    else
    match todos w !! i with
    | None =>
        (Return (TodoOut.mk i title false),
         served (<[i := (title, false)]> (todos w)) i w)
    | Some _ =>
        (Raise (psycopg2_Error "duplicate key value violates unique constraint"),
         served (todos w) i w)
    end.
Proof.
  intros Hts. step_handler. rewrite Hts. simpl. rewrite Hup. on_fresh_connection.
  unfold adapt_str.
  destruct (existsb not_encodable _); on_fresh_connection;
    [unfold served; by rewrite Hup|].
  destruct (existsb (N.eqb 0) _); on_fresh_connection;
    [unfold served; by rewrite Hup|].
  destruct (2147483647 <=? todos_id_seq w); on_fresh_connection;
    [unfold served; by rewrite Hup|].
  destruct (todos w !! _); on_fresh_connection; unfold served; by rewrite Hup.
Qed.

Lemma toggle_done_run todo_id :
  toggle_done todo_id w =
    match todos w !! todo_id with
    | Some (title, done) =>
        (Return (TodoOut.mk todo_id title (negb done)),
         served (<[todo_id := (title, negb done)]> (todos w)) (todos_id_seq w) w)
    | None =>
        (Raise (HTTPException 404 "não encontrado"),
         served (todos w) (todos_id_seq w) w)
    end.
Proof.
  step_handler. rewrite Hup. on_fresh_connection.
  destruct (todos w !! _) as [[??]|]; on_fresh_connection; unfold served; by rewrite Hup.
Qed.

Lemma delete_todo_run todo_id :
  delete_todo todo_id w =
    match todos w !! todo_id with
    | Some _ => (Return (), served (delete todo_id (todos w)) (todos_id_seq w) w)
    | None =>
        (Raise (HTTPException 404 "não encontrado"),
         served (todos w) (todos_id_seq w) w)
    end.
Proof.
  step_handler. rewrite Hup. on_fresh_connection.
  destruct (todos w !! _); on_fresh_connection; unfold served; by rewrite Hup.
Qed.
End reachable_server.

(** A blank title is turned down before the database is touched. *)
Lemma create_todo_blank_run w todo :
  forallb isspace (TodoIn.title todo) = true →
  create_todo todo w = (Raise (HTTPException 400 "título é obrigatório"), w).
Proof. intros Hts. step_handler. by rewrite Hts. Qed.

(** Case analysis on a request: server down, or one branch per handler
    path, each rewritten to its result. *)
Ltac run_app r w :=
  let Hup := fresh "Hup" in
  let msg := fresh "msg" in
  destruct (fault w) as [msg|] eqn:Hup;
  [ rewrite (app_unreachable r w msg Hup)
  | destruct r as [| | |[title]|todo_id|todo_id]; unfold app, route;
    [ rewrite (health_run w Hup)
    | unfold root, mret, M_ret
    | rewrite (list_todos_run w Hup)
    | let Hts := fresh "Hts" in
      destruct (forallb isspace title) eqn:Hts;
      [ rewrite (create_todo_blank_run w (TodoIn.mk title) Hts)
      | rewrite (create_todo_run w Hup (TodoIn.mk title) Hts); simpl;
        let Henc := fresh "Henc" in
        let Hnul := fresh "Hnul" in
        let Hmax := fresh "Hmax" in
        let Hi := fresh "Hi" in
        destruct (existsb not_encodable (strip title)) eqn:Henc;
        [ | destruct (existsb (N.eqb 0) (strip title)) eqn:Hnul;
            [ | destruct (2147483647 <=? todos_id_seq w) eqn:Hmax;
                [ | destruct (todos w !! (todos_id_seq w + 1)) eqn:Hi ] ] ] ]
    | rewrite (toggle_done_run w Hup);
      let Hi := fresh "Hi" in
      destruct (todos w !! todo_id) as [[? ?]|] eqn:Hi
    | rewrite (delete_todo_run w Hup);
      let Hi := fresh "Hi" in
      destruct (todos w !! todo_id) as [[? ?]|] eqn:Hi ] ];
  simpl.

(** ** The sequence stays ahead of the stored ids *)

Lemma ids_assigned_alt w :
  ids_assigned w ↔ ∀ i, is_Some (todos w !! i) → i ≤ todos_id_seq w.
Proof.
  unfold ids_assigned, map_Forall. split.
  - intros H i [x Hx]. eauto.
  - intros H i x Hx. eauto.
Qed.

Lemma ids_assigned_started : ids_assigned started.
Proof. apply map_Forall_empty. Qed.

Lemma fault_app r w : fault (app r w).2 = fault w.
Proof. run_app r w; done. Qed.

Lemma todos_id_seq_app r w : todos_id_seq w ≤ todos_id_seq (app r w).2.
Proof. run_app r w; lia. Qed.

Lemma ids_assigned_app r w : ids_assigned w → ids_assigned (app r w).2.
Proof.
  rewrite !ids_assigned_alt. intros Hw.
  run_app r w; try done; intros i Hs.
  - apply Hw in Hs. lia.
  - destruct (decide (i = todos_id_seq w + 1)) as [->|Hne]; [lia|].
    rewrite lookup_insert_ne in Hs by done. apply Hw in Hs. lia.
  - destruct (decide (i = todo_id)) as [->|Hne]; [by apply Hw; rewrite Hi|].
    rewrite lookup_insert_ne in Hs by done. by apply Hw.
  - apply Hw. destruct (decide (i = todo_id)) as [->|Hne].
    + by rewrite lookup_delete_eq in Hs; destruct Hs.
    + by rewrite lookup_delete_ne in Hs.
Qed.

Lemma ids_assigned_serve rs w : ids_assigned w → ids_assigned (serve rs w).
Proof.
  revert w. induction rs as [|r rs IH]; intros w Hw; [done|].
  apply IH, ids_assigned_app, Hw.
Qed.

(** An id at or below the sequence that is not stored is never stored
    again: the sequence only hands out larger ids. *)
Lemma retired_app r w i :
  todos w !! i = None → i ≤ todos_id_seq w →
  todos (app r w).2 !! i = None ∧ i ≤ todos_id_seq (app r w).2.
Proof.
  intros Hi Hle. split; [|pose proof (todos_id_seq_app r w); lia].
  run_app r w; try done.
  - rewrite lookup_insert_ne by lia. done.
  - rewrite lookup_insert_ne; [done|]. intros ->. congruence.
  - destruct (decide (i = todo_id)) as [->|Hne].
    + by rewrite lookup_delete_eq.
    + by rewrite lookup_delete_ne.
Qed.

Lemma retired_serve rs w i :
  todos w !! i = None → i ≤ todos_id_seq w →
  todos (serve rs w) !! i = None.
Proof.
  revert w. induction rs as [|r rs IH]; intros w Hi Hle; [done|].
  destruct (retired_app r w i Hi Hle). by apply IH.
Qed.

Lemma fault_serve rs w : fault (serve rs w) = fault w.
Proof.
  revert w. induction rs as [|r rs IH]; intros w; [done|].
  change (serve (r :: rs) w) with (serve rs (app r w).2).
  by rewrite IH, fault_app.
Qed.

(** ** ORDER BY id DESC *)

Global Instance id_desc_total : Total id_desc.
Proof. intros a b. unfold id_desc. lia. Qed.

Global Instance id_desc_trans : Transitive id_desc.
Proof. intros a b c. unfold id_desc. lia. Qed.

Lemma select_perm t : select_order_by_id_desc t ≡ₚ row_of <$> map_to_list t.
Proof. apply merge_sort_Permutation. Qed.

Lemma elem_of_select t r :
  r ∈ select_order_by_id_desc t ↔ t !! Row.id r = Some (Row.title r, Row.done r).
Proof.
  rewrite select_perm, list_elem_of_fmap. split.
  - intros ([i [ti d]] & -> & Hin). by apply elem_of_map_to_list in Hin.
  - intros Hr. exists (Row.id r, (Row.title r, Row.done r)).
    split; [by destruct r|]. by apply elem_of_map_to_list.
Qed.

Lemma length_select t : length (select_order_by_id_desc t) = size t.
Proof. by rewrite select_perm, length_fmap, length_map_to_list. Qed.

Lemma NoDup_select_ids t : NoDup (Row.id <$> select_order_by_id_desc t).
Proof.
  rewrite select_perm, <- list_fmap_compose.
  apply (NoDup_fst_map_to_list t).
Qed.

(** Sorted with no id twice: each id is smaller than all before it. *)
Lemma desc_strict (l : list Row.t) :
  StronglySorted id_desc l → NoDup (Row.id <$> l) →
  StronglySorted (λ a b, Row.id b < Row.id a) l.
Proof.
  induction 1 as [|a l Hl IH Ha]; intros Hnd; constructor.
  - apply IH. by apply NoDup_cons in Hnd as [_ ?].
  - apply NoDup_cons in Hnd as [Hnotin _].
    apply Forall_forall. intros b Hb.
    rewrite Forall_forall in Ha. specialize (Ha b Hb). unfold id_desc in Ha.
    assert (Row.id b ≠ Row.id a); [|lia].
    intros Heq. apply Hnotin. rewrite <- Heq. by apply list_elem_of_fmap_2.
Qed.

Lemma select_strictly_desc t :
  StronglySorted (λ a b, Row.id b < Row.id a) (select_order_by_id_desc t).
Proof.
  apply desc_strict; [|apply NoDup_select_ids].
  apply (StronglySorted_merge_sort id_desc).
Qed.

(** ** An id that is not stored *)

Lemma absent_id_run w i r :
  fault w = None → todos w !! i = None →
  r = PATCH_todos i ∨ r = DELETE_todos i →
  app r w = (mkResponse 404 (json_detail "não encontrado"),
             served (todos w) (todos_id_seq w) w).
Proof.
  intros Hup Hi [-> | ->]; unfold app, route.
  - by rewrite (toggle_done_run w Hup), Hi.
  - by rewrite (delete_todo_run w Hup), Hi.
Qed.

(** ** Titles the driver can send *)

Lemma adapt_str_None s :
  adapt_str s = None →
  existsb not_encodable s = false ∧ existsb (N.eqb 0) s = false.
Proof.
  unfold adapt_str.
  destruct (existsb not_encodable s); [done|].
  by destruct (existsb (N.eqb 0) s).
Qed.

(** Closes the paths of a create on which the driver or the sequence
    refuses the insert, when the goal is trivial there. *)
Ltac refused_inserts_done :=
  repeat match goal with
         | |- context [existsb ?f ?s] => destruct (existsb f s); [done|]
         | |- context [2147483647 <=? ?n] => destruct (2147483647 <=? n); [done|]
         end.

(** * The claims of the specification *)

(** C1, as stated, fails — a title that is not empty after trimming
    does not always give 201: a title holding a NUL character or a lone
    surrogate is refused by the driver and the answer is 500, and so is
    any create once the sequence behind [id SERIAL] is exhausted; all
    on a reachable database whose ids come from the sequence. *)
Lemma create_todo_not_always_created :
  (fault two_todos = None ∧ ids_assigned two_todos ∧
   strip [97; 0; 98]%N ≠ [] ∧
   (app (POST_todos (TodoIn.mk [97; 0; 98]%N)) two_todos).1
   = mkResponse 500 internal_server_error) ∧
  (strip [0xD800]%N ≠ [] ∧
   (app (POST_todos (TodoIn.mk [0xD800]%N)) two_todos).1
   = mkResponse 500 internal_server_error) ∧
  (fault sequence_exhausted = None ∧ ids_assigned sequence_exhausted ∧
   strip (u "buy milk") ≠ [] ∧
   (app (POST_todos (TodoIn.mk (u "buy milk"))) sequence_exhausted).1
   = mkResponse 500 internal_server_error).
Proof.
  split; [|split].
  - split; [reflexivity|].
    split; [apply (bool_decide_unpack _); vm_compute; exact I|].
    split; [vm_compute; discriminate|reflexivity].
  - split; [vm_compute; discriminate|reflexivity].
  - split; [reflexivity|].
    split; [apply (bool_decide_unpack _); vm_compute; exact I|].
    split; [vm_compute; discriminate|reflexivity].
Qed.

(** C1, amended — Create with a title that is non-empty after trimming
    and that the driver can send (no NUL, no lone surrogate), on a
    reachable database whose ids all come from the sequence and whose
    sequence is not exhausted: the response is 201 with the created
    record; its id is the next value of the sequence (not in use
    before), its done field is false, and the record is the one now
    stored. *)
Theorem create_todo_created w todo :
  fault w = None → ids_assigned w → todos_id_seq w < 2147483647 →
  strip (TodoIn.title todo) ≠ [] →
  adapt_str (strip (TodoIn.title todo)) = None →
  ∃ o w', app (POST_todos todo) w = (mkResponse 201 (json_todo o), w') ∧
    TodoOut.id o = todos_id_seq w + 1 ∧
    todos w !! TodoOut.id o = None ∧
    TodoOut.done o = false ∧
    todos w' = <[TodoOut.id o := (TodoOut.title o, TodoOut.done o)]> (todos w) ∧
    todos_id_seq w' = TodoOut.id o.
Proof.
  intros Hup Hw Hmax Hts Hsend.
  assert (forallb isspace (TodoIn.title todo) = false) as Hsp.
  { destruct (forallb _ _) eqn:E; [|done]. by apply strip_nil_iff in E. }
  assert (todos w !! (todos_id_seq w + 1) = None) as Hfree.
  { apply eq_None_not_Some. intros Hs.
    apply (proj1 (ids_assigned_alt w) Hw) in Hs. lia. }
  destruct (adapt_str_None _ Hsend) as [Henc Hnul].
  unfold app, route. rewrite (create_todo_run w Hup todo Hsp). simpl.
  rewrite Henc, Hnul, (proj2 (Z.leb_gt _ _) Hmax), Hfree.
  eexists _, _. split; [done|]. simpl. done.
Qed.

Lemma create_todo_created_witness :
  ∃ o w', app (POST_todos (TodoIn.mk (u " buy milk "))) two_todos
          = (mkResponse 201 (json_todo o), w') ∧
    TodoOut.id o = todos_id_seq two_todos + 1 ∧
    todos two_todos !! TodoOut.id o = None ∧
    TodoOut.done o = false ∧
    todos w' = <[TodoOut.id o := (TodoOut.title o, TodoOut.done o)]> (todos two_todos) ∧
    todos_id_seq w' = TodoOut.id o.
Proof.
  apply (create_todo_created two_todos (TodoIn.mk (u " buy milk "))).
  - reflexivity.
  - apply (bool_decide_unpack _). vm_compute. exact I.
  - reflexivity.
  - vm_compute. discriminate.
  - reflexivity.
Defined.

(** C2 — Create with an empty or all-white-space title: the response is
    400 and nothing changes, neither the table nor anything else. *)
Theorem create_todo_blank w todo :
  forallb isspace (TodoIn.title todo) = true →
  app (POST_todos todo) w
  = (mkResponse 400 (json_detail "título é obrigatório"), w).
Proof.
  intros Hts. unfold app, route. by rewrite create_todo_blank_run.
Qed.

Lemma create_todo_blank_witness :
  app (POST_todos (TodoIn.mk [0x20; 0x09; 0x0A; 0xA0; 0x3000]%N)) two_todos
  = (mkResponse 400 (json_detail "título é obrigatório"), two_todos).
Proof.
  apply (create_todo_blank two_todos (TodoIn.mk [0x20; 0x09; 0x0A; 0xA0; 0x3000]%N)).
  reflexivity.
Defined.

(** C3 — List: on a reachable database the response is 200 with exactly
    the stored records (a record is listed iff it is stored, and as many
    are listed as are stored), in strictly descending order of id; the
    table is left as it was. *)
Theorem list_todos_all_desc w :
  fault w = None →
  ∃ l w', app GET_todos w = (mkResponse 200 (json_todos l), w') ∧
    (∀ o, o ∈ l ↔ todos w !! TodoOut.id o = Some (TodoOut.title o, TodoOut.done o)) ∧
    length l = size (todos w) ∧
    StronglySorted (λ a b, TodoOut.id b < TodoOut.id a) l ∧
    todos w' = todos w.
Proof.
  intros Hup. unfold app, route. rewrite (list_todos_run w Hup).
  eexists _, _. split; [done|]. split_and!.
  - intros o. rewrite list_elem_of_fmap. split.
    + intros (r & -> & Hr). by apply elem_of_select in Hr.
    + intros Ho. exists (Row.mk (TodoOut.id o) (TodoOut.title o) (TodoOut.done o)).
      split; [by destruct o|]. by apply elem_of_select.
  - by rewrite length_fmap, length_select.
  - eapply StronglySorted_fmap; [|apply select_strictly_desc]. done.
  - done.
Qed.

Lemma list_todos_all_desc_witness :
  ∃ l w', app GET_todos two_todos = (mkResponse 200 (json_todos l), w') ∧
    (∀ o, o ∈ l ↔ todos two_todos !! TodoOut.id o = Some (TodoOut.title o, TodoOut.done o)) ∧
    length l = size (todos two_todos) ∧
    StronglySorted (λ a b, TodoOut.id b < TodoOut.id a) l ∧
    todos w' = todos two_todos.
Proof. apply (list_todos_all_desc two_todos). reflexivity. Defined.

(** C4 — Toggle of a stored id: the response is 200 with the same id and
    title and the negated done flag, which is what is then stored; a
    second toggle of the same id answers with the original done flag and
    restores the table. *)
Theorem toggle_done_flips w i title done :
  fault w = None → todos w !! i = Some (title, done) →
  ∃ w1 w2,
    app (PATCH_todos i) w
    = (mkResponse 200 (json_todo (TodoOut.mk i title (negb done))), w1) ∧
    todos w1 = <[i := (title, negb done)]> (todos w) ∧
    app (PATCH_todos i) w1
    = (mkResponse 200 (json_todo (TodoOut.mk i title done)), w2) ∧
    todos w2 = todos w.
Proof.
  intros Hup Hi. unfold app, route.
  rewrite (toggle_done_run w Hup), Hi.
  eexists _, _. split; [done|]. split; [done|].
  rewrite toggle_done_run by done. simpl.
  rewrite lookup_insert_eq, negb_involutive. split; [done|]. simpl.
  rewrite insert_insert_eq. by apply insert_id.
Qed.

Lemma toggle_done_flips_witness :
  ∃ w1 w2,
    app (PATCH_todos 1) two_todos
    = (mkResponse 200 (json_todo (TodoOut.mk 1 (u "buy milk") true)), w1) ∧
    todos w1 = <[1 := (u "buy milk", true)]> (todos two_todos) ∧
    app (PATCH_todos 1) w1
    = (mkResponse 200 (json_todo (TodoOut.mk 1 (u "buy milk") false)), w2) ∧
    todos w2 = todos two_todos.
Proof.
  apply (toggle_done_flips two_todos 1 (u "buy milk") false); reflexivity.
Defined.

(** C5 — Toggle and Delete of an id that is not stored: on a reachable
    database both answer 404 and leave table and sequence as they
    were. *)
Theorem absent_id_not_found w i r :
  fault w = None → todos w !! i = None →
  r = PATCH_todos i ∨ r = DELETE_todos i →
  ∃ w', app r w = (mkResponse 404 (json_detail "não encontrado"), w') ∧
    todos w' = todos w ∧ todos_id_seq w' = todos_id_seq w.
Proof.
  intros Hup Hi Hr. rewrite (absent_id_run w i r Hup Hi Hr). by eexists.
Qed.

Lemma absent_id_not_found_witness :
  (∃ w', app (PATCH_todos 7) two_todos
         = (mkResponse 404 (json_detail "não encontrado"), w') ∧
     todos w' = todos two_todos ∧ todos_id_seq w' = todos_id_seq two_todos) ∧
  (∃ w', app (DELETE_todos 7) two_todos
         = (mkResponse 404 (json_detail "não encontrado"), w') ∧
     todos w' = todos two_todos ∧ todos_id_seq w' = todos_id_seq two_todos).
Proof.
  split.
  - apply (absent_id_not_found two_todos 7 (PATCH_todos 7));
      [reflexivity | reflexivity | by left].
  - apply (absent_id_not_found two_todos 7 (DELETE_todos 7));
      [reflexivity | reflexivity | by right].
Defined.

(** C6 — Delete of a stored id: on a reachable database the response is
    204 without a body; the table loses exactly that record, every other
    record stays; a Toggle or Delete of the same id right after answers
    404, and, the ids being handed out by the sequence, so does one
    after any further requests. *)
Theorem delete_todo_removes w i title done :
  fault w = None → todos w !! i = Some (title, done) →
  ∃ w', app (DELETE_todos i) w = (mkResponse 204 no_body, w') ∧
    todos w' = delete i (todos w) ∧
    todos w' !! i = None ∧
    (∀ j, j ≠ i → todos w' !! j = todos w !! j) ∧
    (∀ r, r = PATCH_todos i ∨ r = DELETE_todos i →
       (app r w').1 = mkResponse 404 (json_detail "não encontrado")) ∧
    (ids_assigned w → ∀ rs r, r = PATCH_todos i ∨ r = DELETE_todos i →
       (app r (serve rs w')).1 = mkResponse 404 (json_detail "não encontrado")).
Proof.
  intros Hup Hi.
  assert (∀ w0 r, fault w0 = None → todos w0 !! i = None →
            r = PATCH_todos i ∨ r = DELETE_todos i →
            (app r w0).1 = mkResponse 404 (json_detail "não encontrado")) as H404.
  { intros w0 r Hup0 Hi0 Hr.
    by rewrite (absent_id_run w0 i r Hup0 Hi0 Hr). }
  unfold app at 1, route. rewrite (delete_todo_run w Hup), Hi.
  eexists. split; [done|]. simpl. split_and!.
  - done.
  - apply lookup_delete_eq.
  - intros j Hj. by apply lookup_delete_ne.
  - intros r Hr. apply H404; [done|apply lookup_delete_eq|done].
  - intros Hw rs r Hr. apply H404; [by rewrite fault_serve| |done].
    apply retired_serve; simpl; [apply lookup_delete_eq|].
    apply (proj1 (ids_assigned_alt w) Hw). by rewrite Hi.
Qed.

Lemma delete_todo_removes_witness :
  ∃ w', app (DELETE_todos 2) two_todos = (mkResponse 204 no_body, w') ∧
    todos w' = delete 2 (todos two_todos) ∧
    todos w' !! 2 = None ∧
    (∀ j, j ≠ 2 → todos w' !! j = todos two_todos !! j) ∧
    (∀ r, r = PATCH_todos 2 ∨ r = DELETE_todos 2 →
       (app r w').1 = mkResponse 404 (json_detail "não encontrado")) ∧
    (∀ rs r, r = PATCH_todos 2 ∨ r = DELETE_todos 2 →
       (app r (serve rs w')).1 = mkResponse 404 (json_detail "não encontrado")).
Proof.
  destruct (delete_todo_removes two_todos 2 (u "walk  dog") false)
    as (w' & Hresp & Hdel & Hgone & Hothers & Hnext & Hlater);
    [reflexivity | reflexivity |].
  exists w'. split_and!; [done..|].
  apply Hlater. apply (bool_decide_unpack _). vm_compute. exact I.
Defined.

(** C7 — Health check: the response is always 200 with service "ok";
    the database field is "ok" when the server can be reached and
    carries the error text when it cannot; the table is not touched. *)
Theorem health_reports_independently w :
  ∃ w', app GET_health w
        = (mkResponse 200
             (json_health
                (mkHealth "ok"
                   (match fault w with
                    | None => "ok"
                    | Some e => "error: " +:+ e
                    end))), w') ∧
    todos w' = todos w.
Proof.
  destruct (fault w) as [msg|] eqn:Hup.
  - rewrite (app_unreachable _ _ msg Hup). by eexists.
  - unfold app, route. rewrite (health_run w Hup). by eexists.
Qed.

(** C8 — Toggle changes nothing but one done flag: whatever the id and
    whatever the outcome, every other record is as before, the record of
    that id is either as before or has the same title and the negated
    flag, no id appears or disappears, and the sequence does not move. *)
Theorem toggle_done_frame w i :
  let w' := (app (PATCH_todos i) w).2 in
  (∀ j, j ≠ i → todos w' !! j = todos w !! j) ∧
  (todos w' !! i = todos w !! i ∨
   ∃ title done, todos w !! i = Some (title, done) ∧
                 todos w' !! i = Some (title, negb done)) ∧
  dom (todos w') = dom (todos w) ∧
  todos_id_seq w' = todos_id_seq w.
Proof.
  cbv zeta. destruct (fault w) as [msg|] eqn:Hup.
  { rewrite (app_unreachable _ _ msg Hup). simpl. auto. }
  unfold app, route. rewrite (toggle_done_run w Hup).
  destruct (todos w !! i) as [[title done]|] eqn:Hi; simpl; [|auto].
  split_and!.
  - intros j Hj. by rewrite lookup_insert_ne.
  - right. eexists _, _. split; [done|]. by rewrite lookup_insert_eq.
  - apply dom_insert_lookup_L. by rewrite Hi.
  - done.
Qed.

(** C10 — A successful Create stores and echoes the stripped title: the
    record has [strip title], which is [title] without a white-space
    prefix and a white-space suffix, has no white space at either end,
    and keeps everything in between. *)
Theorem create_todo_stores_stripped w todo :
  status_code (app (POST_todos todo) w).1 = 201 →
  ∃ i l r,
    (app (POST_todos todo) w).1
    = mkResponse 201 (json_todo (TodoOut.mk i (strip (TodoIn.title todo)) false)) ∧
    todos (app (POST_todos todo) w).2 !! i
    = Some (strip (TodoIn.title todo), false) ∧
    TodoIn.title todo = l ++ strip (TodoIn.title todo) ++ r ∧
    forallb isspace l = true ∧ forallb isspace r = true ∧
    (∀ c, head (strip (TodoIn.title todo)) = Some c → isspace c = false) ∧
    (∀ c, last (strip (TodoIn.title todo)) = Some c → isspace c = false).
Proof.
  destruct (strip_spec (TodoIn.title todo)) as (l & r & Hs & Hl & Hr & Hh & Hlast).
  intros H201. exists (todos_id_seq w + 1), l, r.
  cut ((app (POST_todos todo) w).1
       = mkResponse 201
           (json_todo (TodoOut.mk (todos_id_seq w + 1) (strip (TodoIn.title todo)) false)) ∧
       todos (app (POST_todos todo) w).2 !! (todos_id_seq w + 1)
       = Some (strip (TodoIn.title todo), false)).
  { intros [??]. by split_and!. }
  revert H201. clear. destruct (fault w) as [msg|] eqn:Hup.
  { rewrite (app_unreachable _ _ msg Hup). simpl.
    by destruct (forallb isspace _). }
  unfold app, route.
  destruct (forallb isspace (TodoIn.title todo)) eqn:Hts.
  { by rewrite (create_todo_blank_run w todo Hts). }
  rewrite (create_todo_run w Hup todo Hts). simpl.
  refused_inserts_done.
  destruct (todos w !! (todos_id_seq w + 1)); [done|]. simpl.
  by rewrite lookup_insert_eq.
Qed.

Lemma create_todo_stores_stripped_witness :
  ∃ i l r,
    (app (POST_todos (TodoIn.mk (u "  walk  the dog "))) two_todos).1
    = mkResponse 201 (json_todo (TodoOut.mk i (u "walk  the dog") false)) ∧
    todos (app (POST_todos (TodoIn.mk (u "  walk  the dog "))) two_todos).2 !! i
    = Some (u "walk  the dog", false) ∧
    u "  walk  the dog " = l ++ u "walk  the dog" ++ r ∧
    forallb isspace l = true ∧ forallb isspace r = true ∧
    (∀ c, head (u "walk  the dog") = Some c → isspace c = false) ∧
    (∀ c, last (u "walk  the dog") = Some c → isspace c = false).
Proof.
  apply (create_todo_stores_stripped two_todos (TodoIn.mk (u "  walk  the dog "))).
  reflexivity.
Defined.



(** * Further properties of the code *)

(** ** The handlers one by one, behind their routes *)

Section routes_on_reachable_server.
Context (w : World) (Hup : fault w = None).

Lemma app_GET_todos :
  app GET_todos w
  = (mkResponse 200 (json_todos (TodoOut_of <$> select_order_by_id_desc (todos w))),
     served (todos w) (todos_id_seq w) w).
Proof. unfold app, route. by rewrite (list_todos_run w Hup). Qed.

Lemma app_POST_todos todo :
  forallb isspace (TodoIn.title todo) = false →
  adapt_str (strip (TodoIn.title todo)) = None →
  todos_id_seq w < 2147483647 →
  todos w !! (todos_id_seq w + 1) = None →
  app (POST_todos todo) w
  = (mkResponse 201
       (json_todo (TodoOut.mk (todos_id_seq w + 1) (strip (TodoIn.title todo)) false)),
     served (<[todos_id_seq w + 1 := (strip (TodoIn.title todo), false)]> (todos w))
       (todos_id_seq w + 1) w).
Proof.
  intros Hts Hsend Hmax Hfree. unfold app, route.
  destruct (adapt_str_None _ Hsend) as [Henc Hnul].
  rewrite (create_todo_run w Hup todo Hts). simpl.
  by rewrite Henc, Hnul, (proj2 (Z.leb_gt _ _) Hmax), Hfree.
Qed.

Lemma app_PATCH_todos i :
  app (PATCH_todos i) w
  = match todos w !! i with
    | Some (title, done) =>
        (mkResponse 200 (json_todo (TodoOut.mk i title (negb done))),
         served (<[i := (title, negb done)]> (todos w)) (todos_id_seq w) w)
    | None =>
        (mkResponse 404 (json_detail "não encontrado"),
         served (todos w) (todos_id_seq w) w)
    end.
Proof.
  unfold app, route. rewrite (toggle_done_run w Hup).
  by destruct (todos w !! i) as [[??]|].
Qed.

Lemma app_DELETE_todos i :
  app (DELETE_todos i) w
  = match todos w !! i with
    | Some _ =>
        (mkResponse 204 no_body, served (delete i (todos w)) (todos_id_seq w) w)
    | None =>
        (mkResponse 404 (json_detail "não encontrado"),
         served (todos w) (todos_id_seq w) w)
    end.
Proof.
  unfold app, route. rewrite (delete_todo_run w Hup).
  by destruct (todos w !! i).
Qed.
End routes_on_reachable_server.

(** What a [POST /todos] answered 201 has done. *)
Lemma app_POST_todos_201 w todo :
  status_code (app (POST_todos todo) w).1 = 201 →
  app (POST_todos todo) w
  = (mkResponse 201
       (json_todo (TodoOut.mk (todos_id_seq w + 1) (strip (TodoIn.title todo)) false)),
     served (<[todos_id_seq w + 1 := (strip (TodoIn.title todo), false)]> (todos w))
       (todos_id_seq w + 1) w) ∧
  fault w = None ∧
  forallb isspace (TodoIn.title todo) = false.
Proof.
  destruct (fault w) as [msg|] eqn:Hup.
  { rewrite (app_unreachable _ _ msg Hup). simpl.
    by destruct (forallb isspace _). }
  unfold app, route.
  destruct (forallb isspace (TodoIn.title todo)) eqn:Hts.
  { by rewrite (create_todo_blank_run w todo Hts). }
  rewrite (create_todo_run w Hup todo Hts). simpl.
  refused_inserts_done.
  by destruct (todos w !! (todos_id_seq w + 1)).
Qed.

Lemma todos_id_seq_serve rs w : todos_id_seq w ≤ todos_id_seq (serve rs w).
Proof.
  revert w. induction rs as [|r rs IH]; intros w; [done|].
  change (serve (r :: rs) w) with (serve rs (app r w).2).
  pose proof (todos_id_seq_app r w). specialize (IH (app r w).2). lia.
Qed.

Lemma not_blank s : strip s ≠ [] → forallb isspace s = false.
Proof.
  intros Hs. destruct (forallb isspace s) eqn:E; [|done].
  by apply strip_nil_iff in E.
Qed.

Lemma next_id_free w : ids_assigned w → todos w !! (todos_id_seq w + 1) = None.
Proof.
  intros Hw. apply eq_None_not_Some. intros Hs.
  apply (proj1 (ids_assigned_alt w) Hw) in Hs. lia.
Qed.

(** X1 — When the database server cannot be reached nothing changes,
    whatever the request: [/health] and [/] still answer 200 (the health
    body carrying the driver's message), a blank-title [POST /todos]
    answers 400, and every other request answers 500. *)
Theorem unreachable_server_answers r w msg :
  fault w = Some msg →
  (app r w).2 = w ∧
  (app r w).1
  = match r with
    | GET_health =>
        mkResponse 200 (json_health (mkHealth "ok" ("error: " +:+ msg)))
    | GET_root =>
        mkResponse 200 (json_root (mkRoot "Lightsail FastAPI Demo" "/docs"))
    | POST_todos todo =>
        if forallb isspace (TodoIn.title todo)
        then mkResponse 400 (json_detail "título é obrigatório")
        else mkResponse 500 internal_server_error
    | GET_todos | PATCH_todos _ | DELETE_todos _ =>
        mkResponse 500 internal_server_error
    end.
Proof.
  intros Hf. rewrite (app_unreachable r w msg Hf). split; [done|].
  by destruct r.
Qed.

Lemma unreachable_server_answers_witness :
  (app (PATCH_todos 1) server_down).2 = server_down ∧
  (app (PATCH_todos 1) server_down).1 = mkResponse 500 internal_server_error.
Proof.
  apply (unreachable_server_answers (PATCH_todos 1) server_down "connection refused").
  reflexivity.
Defined.

(** X2 — The table changes only through a successful write: if a
    request leaves the table different from what it was, it is a
    [POST /todos] answered 201, a [PATCH] answered 200 or a [DELETE]
    answered 204.  Reads and all error responses (400, 404, 500) leave
    every record as it was. *)
Theorem table_changes_only_on_successful_write r w :
  todos (app r w).2 ≠ todos w →
  match r with
  | POST_todos _ => status_code (app r w).1 = 201
  | PATCH_todos _ => status_code (app r w).1 = 200
  | DELETE_todos _ => status_code (app r w).1 = 204
  | GET_health | GET_root | GET_todos => False
  end.
Proof.
  run_app r w; done.
Qed.

Lemma table_changes_only_on_successful_write_witness :
  status_code (app (DELETE_todos 1) two_todos).1 = 204.
Proof.
  apply (table_changes_only_on_successful_write (DELETE_todos 1) two_todos).
  vm_compute. discriminate.
Defined.

(** X3 — Each endpoint answers only with the status codes of its own
    paths, a request turned down by FastAPI's validation included:
    [/health] and [/] always 200; [GET /todos] 200 or 500; [POST /todos]
    201, 400, 422 or 500; [PATCH] 200, 404, 422 or 500; [DELETE] 204,
    404, 422 or 500. *)
Theorem status_codes_by_endpoint i w :
  status_code (fastapi i w).1 ∈
    match endpoint_of i with
    | ep_health | ep_root => [200]
    | ep_list_todos => [200; 500]
    | ep_create_todo => [201; 400; 422; 500]
    | ep_toggle_done => [200; 404; 422; 500]
    | ep_delete_todo => [204; 404; 422; 500]
    end.
Proof.
  destruct i as [r| | |]; simpl; [|set_solver..].
  run_app r w; try (destruct r; try destruct (forallb isspace _)); simpl;
    set_solver.
Qed.

(** X4 — The branch [if not row: raise HTTPException(500, ...)] of
    [create_todo] is never taken: an [INSERT ... RETURNING] that does
    not fail yields its row, so the handler never raises an
    [HTTPException] with status 500, whatever the title and the state
    of the database. *)
Theorem create_todo_never_raises_500 todo w detail :
  (create_todo todo w).1 ≠ Raise (HTTPException 500 detail).
Proof.
  destruct (forallb isspace (TodoIn.title todo)) eqn:Hts.
  { by rewrite (create_todo_blank_run w todo Hts). }
  destruct (fault w) as [msg|] eqn:Hup.
  { step_handler. rewrite Hts. simpl. by rewrite Hup. }
  rewrite (create_todo_run w Hup todo Hts). simpl.
  refused_inserts_done.
  by destruct (todos w !! _).
Qed.

(** X5 — Ids are never reused: a record created after any series of
    requests gets an id larger than every id that was stored before that
    series, whether those records are still there or were deleted in
    between. *)
Theorem ids_never_reused w rs todo o i :
  ids_assigned w →
  (app (POST_todos todo) (serve rs w)).1 = mkResponse 201 (json_todo o) →
  is_Some (todos w !! i) → i < TodoOut.id o.
Proof.
  intros Hw Hcreated Hi.
  apply (proj1 (ids_assigned_alt w) Hw) in Hi.
  pose proof (todos_id_seq_serve rs w) as Hseq.
  assert (TodoOut.id o = todos_id_seq (serve rs w) + 1) as ->; [|lia].
  destruct (app_POST_todos_201 (serve rs w) todo) as [E _];
    [by rewrite Hcreated|].
  rewrite E in Hcreated. simpl in Hcreated. by injection Hcreated as <-.
Qed.

Lemma ids_never_reused_witness :
  ∃ o,
    (app (POST_todos (TodoIn.mk (u "call mum")))
       (serve [DELETE_todos 2; PATCH_todos 1] two_todos)).1
    = mkResponse 201 (json_todo o) ∧
    2 < TodoOut.id o.
Proof.
  eexists. split; [reflexivity|].
  apply (ids_never_reused two_todos [DELETE_todos 2; PATCH_todos 1]
           (TodoIn.mk (u "call mum")) _ 2).
  - apply (bool_decide_unpack _). vm_compute. exact I.
  - reflexivity.
  - eexists. reflexivity.
Defined.

(** X6 — On a reachable database whose ids come from the sequence (as
    after start-up), a create with a non-blank title that the driver
    can send succeeds with 201 after any series of requests that leaves
    the sequence below its last value: short of exhausting the
    sequence, no earlier request can make a later insert fail. *)
Theorem create_succeeds_after_any_requests w rs todo :
  fault w = None → ids_assigned w → strip (TodoIn.title todo) ≠ [] →
  adapt_str (strip (TodoIn.title todo)) = None →
  todos_id_seq (serve rs w) < 2147483647 →
  status_code (app (POST_todos todo) (serve rs w)).1 = 201.
Proof.
  intros Hup Hw Hts Hsend Hmax.
  rewrite app_POST_todos; [done| |by apply not_blank|done|done|].
  - by rewrite fault_serve.
  - by apply next_id_free, ids_assigned_serve.
Qed.

Lemma create_succeeds_after_any_requests_witness :
  status_code
    (app (POST_todos (TodoIn.mk (u "call mum")))
       (serve [DELETE_todos 2; POST_todos (TodoIn.mk (u "x")); DELETE_todos 3]
          two_todos)).1 = 201.
Proof.
  apply (create_succeeds_after_any_requests two_todos).
  - reflexivity.
  - apply (bool_decide_unpack _). vm_compute. exact I.
  - vm_compute. discriminate.
  - reflexivity.
  - reflexivity.
Defined.

(** ** What a listing shows after a write *)

Lemma listing_sorted t :
  StronglySorted (λ a b, TodoOut.id b < TodoOut.id a) (listing t).
Proof.
  unfold listing. eapply StronglySorted_fmap; [|apply select_strictly_desc]. done.
Qed.

Lemma elem_of_listing t o :
  o ∈ listing t ↔ t !! TodoOut.id o = Some (TodoOut.title o, TodoOut.done o).
Proof.
  unfold listing. rewrite list_elem_of_fmap. split.
  - intros (r & -> & Hr). by apply elem_of_select in Hr.
  - intros Ho. exists (Row.mk (TodoOut.id o) (TodoOut.title o) (TodoOut.done o)).
    split; [by destruct o|]. by apply elem_of_select.
Qed.

Lemma strictly_desc_NoDup (l : list TodoOut.t) :
  StronglySorted (λ a b, TodoOut.id b < TodoOut.id a) l → NoDup l.
Proof.
  induction 1 as [|a l Hl IH Ha]; constructor; [|done].
  intros Hin. rewrite Forall_forall in Ha. specialize (Ha a Hin). lia.
Qed.

(** A strictly descending list with the records of a table is its
    listing. *)
Lemma listing_unique t (l : list TodoOut.t) :
  StronglySorted (λ a b, TodoOut.id b < TodoOut.id a) l →
  (∀ o, o ∈ l ↔ t !! TodoOut.id o = Some (TodoOut.title o, TodoOut.done o)) →
  listing t = l.
Proof.
  intros Hl Hin.
  apply (StronglySorted_unique_strong (λ a b, TodoOut.id b < TodoOut.id a));
    [intros; lia|apply listing_sorted|done|].
  apply NoDup_Permutation; [apply strictly_desc_NoDup, listing_sorted
                           |by apply strictly_desc_NoDup|].
  intros o. by rewrite elem_of_listing, Hin.
Qed.

Lemma strictly_desc_filter (P : TodoOut.t → Prop) `{!∀ o, Decision (P o)} l :
  StronglySorted (λ a b, TodoOut.id b < TodoOut.id a) l →
  StronglySorted (λ a b, TodoOut.id b < TodoOut.id a) (filter P l).
Proof.
  induction 1 as [|a l Hl IH Ha]; [constructor|].
  rewrite filter_cons. destruct (decide (P a)); [|done].
  constructor; [done|].
  apply Forall_forall. intros b [_ Hb]%list_elem_of_filter.
  rewrite Forall_forall in Ha. auto.
Qed.

Lemma listing_insert_new t i title :
  (∀ k, is_Some (t !! k) → k < i) →
  listing (<[i := (title, false)]> t) = TodoOut.mk i title false :: listing t.
Proof.
  intros Hlt. apply listing_unique.
  - constructor; [apply listing_sorted|].
    apply Forall_forall. intros o Ho%elem_of_listing. simpl. apply Hlt. eauto.
  - intros o. rewrite elem_of_cons, elem_of_listing.
    destruct (decide (TodoOut.id o = i)) as [Hi|Hi].
    + rewrite Hi, lookup_insert_eq. split.
      * intros [->|Ho]; [done|]. rewrite <- Hi in Hlt.
        assert (TodoOut.id o < TodoOut.id o); [|lia]. apply Hlt. rewrite Hi. eauto.
      * intros [= ??]. left. destruct o; simpl in *; congruence.
    + rewrite lookup_insert_ne by done. split; [|auto].
      intros [->|?]; [done|done].
Qed.

Lemma listing_delete t i : listing (delete i t) = without i (listing t).
Proof.
  apply listing_unique.
  - apply strictly_desc_filter, listing_sorted.
  - intros o. unfold without. rewrite list_elem_of_filter, elem_of_listing.
    rewrite lookup_delete_Some. split; intros [??]; split; done.
Qed.

Lemma listing_toggle t i title done :
  t !! i = Some (title, done) →
  listing (<[i := (title, negb done)]> t) = toggled i (listing t).
Proof.
  intros Hi. apply listing_unique.
  - unfold toggled. eapply StronglySorted_fmap; [|apply listing_sorted].
    intros a b Hab. simpl. by repeat case_decide.
  - intros o. unfold toggled. rewrite list_elem_of_fmap. split.
    + intros (o0 & -> & Ho0%elem_of_listing). case_decide as Hid.
      * simpl. rewrite Hid, lookup_insert_eq. rewrite Hid, Hi in Ho0.
        by injection Ho0 as <- <-.
      * by rewrite lookup_insert_ne.
    + intros Ho. destruct (decide (TodoOut.id o = i)) as [Hid|Hid].
      * rewrite Hid, lookup_insert_eq in Ho. injection Ho as Ht Hd.
        exists (TodoOut.mk i title done). rewrite decide_True by done.
        split; [destruct o; unfold flipped; simpl in *; congruence|].
        by apply elem_of_listing.
      * rewrite lookup_insert_ne in Ho by done.
        exists o. rewrite decide_False by done. split; [done|].
        by apply elem_of_listing.
Qed.

Lemma toggled_absent t i : t !! i = None → toggled i (listing t) = listing t.
Proof.
  intros Hi. unfold toggled. rewrite <- (list_fmap_id (listing t)) at 2.
  apply list_fmap_ext. intros n o Ho%list_elem_of_lookup_2%elem_of_listing.
  rewrite decide_False; [done|]. intros Hid. rewrite Hid in Ho. congruence.
Qed.

(** X7 — A created record shows up first in the next listing: when the
    stored ids come from the sequence and a [POST /todos] is answered
    201, the [GET /todos] that follows returns the created record
    followed by exactly what [GET /todos] returned before. *)
Theorem created_todo_is_listed_first w todo o :
  ids_assigned w →
  (app (POST_todos todo) w).1 = mkResponse 201 (json_todo o) →
  ∃ l,
    (app GET_todos w).1 = mkResponse 200 (json_todos l) ∧
    (app GET_todos (app (POST_todos todo) w).2).1
    = mkResponse 200 (json_todos (o :: l)).
Proof.
  intros Hw Hcreated.
  destruct (app_POST_todos_201 w todo) as (E & Hup & _); [by rewrite Hcreated|].
  rewrite E in Hcreated |- *. simpl in Hcreated. injection Hcreated as <-.
  eexists. rewrite (app_GET_todos w Hup). split; [done|].
  rewrite app_GET_todos by done. simpl. do 2 f_equal.
  apply listing_insert_new.
  intros k Hk. apply (proj1 (ids_assigned_alt w) Hw) in Hk. lia.
Qed.

Lemma created_todo_is_listed_first_witness :
  ∃ l,
    (app GET_todos two_todos).1 = mkResponse 200 (json_todos l) ∧
    (app GET_todos (app (POST_todos (TodoIn.mk (u "call mum"))) two_todos).2).1
    = mkResponse 200 (json_todos (TodoOut.mk 3 (u "call mum") false :: l)).
Proof.
  apply (created_todo_is_listed_first two_todos (TodoIn.mk (u "call mum"))).
  - apply (bool_decide_unpack _). vm_compute. exact I.
  - reflexivity.
Defined.

(** X8 — A deleted record is gone from the next listing and nothing else
    moves: on a reachable database, [GET /todos] after [DELETE] of id
    [i] (answered 204 or 404) returns what it returned before without
    the record of id [i], in the same order. *)
Theorem deleted_todo_is_not_listed w i :
  fault w = None →
  ∃ l,
    (app GET_todos w).1 = mkResponse 200 (json_todos l) ∧
    (app GET_todos (app (DELETE_todos i) w).2).1
    = mkResponse 200 (json_todos (without i l)).
Proof.
  intros Hup. eexists. rewrite (app_GET_todos w Hup). split; [done|].
  rewrite (app_DELETE_todos w Hup).
  destruct (todos w !! i) eqn:Hi; rewrite app_GET_todos by done; simpl;
    do 2 f_equal; fold (listing (todos w)).
  - apply listing_delete.
  - rewrite <- listing_delete. f_equal. symmetry. by apply delete_id.
Qed.

Lemma deleted_todo_is_not_listed_witness :
  ∃ l,
    (app GET_todos two_todos).1 = mkResponse 200 (json_todos l) ∧
    (app GET_todos (app (DELETE_todos 1) two_todos).2).1
    = mkResponse 200 (json_todos (without 1 l)).
Proof. apply (deleted_todo_is_not_listed two_todos 1). reflexivity. Defined.

(** X9 — A toggle shows in the next listing as one flipped flag: on a
    reachable database, [GET /todos] after [PATCH] of id [i] (answered
    200 or 404) returns what it returned before, in the same order, with
    the done flag of the record of id [i] negated and every other
    record as it was. *)
Theorem toggled_todo_is_listed_flipped w i :
  fault w = None →
  ∃ l,
    (app GET_todos w).1 = mkResponse 200 (json_todos l) ∧
    (app GET_todos (app (PATCH_todos i) w).2).1
    = mkResponse 200 (json_todos (toggled i l)).
Proof.
  intros Hup. eexists. rewrite (app_GET_todos w Hup). split; [done|].
  rewrite (app_PATCH_todos w Hup).
  destruct (todos w !! i) as [[title flag]|] eqn:Hi;
    rewrite app_GET_todos by (exact Hup); simpl; do 2 f_equal;
    fold (listing (todos w)).
  - by apply listing_toggle.
  - symmetry. by apply toggled_absent.
Qed.

Lemma toggled_todo_is_listed_flipped_witness :
  ∃ l,
    (app GET_todos two_todos).1 = mkResponse 200 (json_todos l) ∧
    (app GET_todos (app (PATCH_todos 2) two_todos).2).1
    = mkResponse 200 (json_todos (toggled 2 l)).
Proof. apply (toggled_todo_is_listed_flipped two_todos 2). reflexivity. Defined.

(** ** Titles that are already stripped *)

Lemma lstrip_fixed s :
  (∀ c, head s = Some c → isspace c = false) → lstrip s = s.
Proof.
  destruct s as [|c s]; [done|]. intros H. simpl. by rewrite (H c).
Qed.

Lemma rstrip_fixed s :
  (∀ c, last s = Some c → isspace c = false) → rstrip s = s.
Proof.
  induction s as [|c s IH]; [done|]. intros H. simpl.
  destruct s as [|c' s'].
  - simpl. by rewrite (H c).
  - rewrite IH; [done|]. intros c0 Hc0. apply H. by rewrite last_cons_cons.
Qed.

Lemma strip_idempotent s : strip (strip s) = strip s.
Proof.
  destruct (strip_spec s) as (_ & _ & _ & _ & _ & Hhead & Hlast).
  unfold strip at 1. rewrite (lstrip_fixed _ Hhead). by apply rstrip_fixed.
Qed.

(** X10 — The title a create echoes is stable: after a [POST /todos]
    answered 201, posting the echoed title again is never turned down
    as blank, and when it is answered 201 too, the new record has
    exactly the echoed title and the next id.  Stripping a stripped
    title changes nothing. *)
Theorem echoed_title_round_trip w todo o1 :
  (app (POST_todos todo) w).1 = mkResponse 201 (json_todo o1) →
  status_code (post_again todo o1 w).1 ≠ 400 ∧
  ∀ o2, (post_again todo o1 w).1 = mkResponse 201 (json_todo o2) →
        TodoOut.title o2 = TodoOut.title o1 ∧
        TodoOut.id o2 = TodoOut.id o1 + 1.
Proof.
  intros Hcreated. unfold post_again.
  destruct (app_POST_todos_201 w todo) as (E & Hup & Hts); [by rewrite Hcreated|].
  rewrite E in Hcreated |- *. simpl in Hcreated. injection Hcreated as <-.
  cbn [TodoOut.title TodoOut.id snd].
  assert (forallb isspace (strip (TodoIn.title todo)) = false) as Hts'.
  { apply not_blank. rewrite strip_idempotent. intros Hnil.
    apply strip_nil_iff in Hnil. congruence. }
  split.
  - unfold app, route. rewrite create_todo_run by done. simpl.
    refused_inserts_done. by destruct (_ !! _).
  - intros o2 H2.
    destruct (app_POST_todos_201 _ _ (f_equal status_code H2)) as (E2 & _).
    rewrite E2 in H2. simpl in H2. injection H2 as <-.
    simpl. by rewrite strip_idempotent.
Qed.

Lemma echoed_title_round_trip_witness :
  status_code
    (post_again (TodoIn.mk (u "  call mum ")) (TodoOut.mk 3 (u "call mum") false)
       two_todos).1 ≠ 400 ∧
  ∀ o2, (post_again (TodoIn.mk (u "  call mum "))
           (TodoOut.mk 3 (u "call mum") false) two_todos).1
        = mkResponse 201 (json_todo o2) →
        TodoOut.title o2 = u "call mum" ∧
        TodoOut.id o2 = 3 + 1.
Proof.
  apply (echoed_title_round_trip two_todos (TodoIn.mk (u "  call mum "))
           (TodoOut.mk 3 (u "call mum") false)).
  reflexivity.
Defined.

(** ** Requests on different ids *)

Lemma app_write_other w i j r1 r2 :
  i ≠ j →
  r1 = PATCH_todos i ∨ r1 = DELETE_todos i →
  r2 = PATCH_todos j ∨ r2 = DELETE_todos j →
  (app r2 (app r1 w).2).1 = (app r2 w).1 ∧
  todos (app r2 (app r1 w).2).2 = todos (app r1 (app r2 w).2).2.
Proof.
  intros Hij Hr1 Hr2. destruct (fault w) as [msg|] eqn:Hup.
  { by rewrite !(app_unreachable _ w msg Hup). }
  destruct Hr1 as [-> | ->], Hr2 as [-> | ->];
    rewrite ?(app_PATCH_todos w Hup), ?(app_DELETE_todos w Hup);
    destruct (todos w !! i) as [[ti di]|] eqn:Hi;
    destruct (todos w !! j) as [[tj dj]|] eqn:Hj;
    rewrite ?app_PATCH_todos, ?app_DELETE_todos by (exact Hup); simpl;
    rewrite ?lookup_insert_ne, ?lookup_delete_ne, ?Hi, ?Hj by done; simpl;
    (split; [done|]);
    rewrite ?(insert_insert_ne _ i j), ?(delete_insert_ne _ i j),
      ?(delete_insert_ne _ j i), ?(delete_delete _ i j) by done; done.
Qed.

(** X11 — Toggles and deletes of different ids do not interfere: the
    second request gets the answer it would have got alone, and both
    orders leave the same table. *)
Theorem writes_on_different_ids_commute w i j r1 r2 :
  i ≠ j →
  r1 = PATCH_todos i ∨ r1 = DELETE_todos i →
  r2 = PATCH_todos j ∨ r2 = DELETE_todos j →
  (app r2 (app r1 w).2).1 = (app r2 w).1 ∧
  (app r1 (app r2 w).2).1 = (app r1 w).1 ∧
  todos (serve [r1; r2] w) = todos (serve [r2; r1] w).
Proof.
  intros Hij Hr1 Hr2.
  destruct (app_write_other w i j r1 r2 Hij Hr1 Hr2) as [H12 Ht].
  destruct (app_write_other w j i r2 r1 (not_eq_sym Hij) Hr2 Hr1) as [H21 _].
  done.
Qed.

Lemma writes_on_different_ids_commute_witness :
  (app (DELETE_todos 2) (app (PATCH_todos 1) two_todos).2).1
  = (app (DELETE_todos 2) two_todos).1 ∧
  (app (PATCH_todos 1) (app (DELETE_todos 2) two_todos).2).1
  = (app (PATCH_todos 1) two_todos).1 ∧
  todos (serve [PATCH_todos 1; DELETE_todos 2] two_todos)
  = todos (serve [DELETE_todos 2; PATCH_todos 1] two_todos).
Proof.
  apply (writes_on_different_ids_commute two_todos 1 2);
    [discriminate | by left | by right].
Defined.

(** ** Connections across requests *)

Lemma idle_app r w :
  Forall (λ c, c = None) (connections w) →
  Forall (λ c, c = None) (connections (app r w).2).
Proof.
  intros Hw.
  run_app r w; rewrite ?Forall_app; try done; by split; [|repeat constructor].
Qed.

(** X12 — No request leaves a transaction open: if no connection has a
    transaction in progress, none has after any series of requests,
    whatever their outcomes. *)
Theorem no_transaction_left_open rs w :
  Forall (λ c, c = None) (connections w) →
  Forall (λ c, c = None) (connections (serve rs w)).
Proof.
  revert w. induction rs as [|r rs IH]; intros w Hw; [done|].
  apply IH, idle_app, Hw.
Qed.

Lemma no_transaction_left_open_witness :
  Forall (λ c, c = None)
    (connections
       (serve [PATCH_todos 7; POST_todos (TodoIn.mk (u " ")); DELETE_todos 1]
          two_todos)).
Proof.
  apply (no_transaction_left_open
           [PATCH_todos 7; POST_todos (TodoIn.mk (u " ")); DELETE_todos 1] two_todos).
  vm_compute. repeat constructor.
Defined.

(** ** Start-up *)

(** [execute_stmt] is [execute] with the meaning of the statement made
    explicit, once the parameters are made into literals. *)
Lemma execute_as_stmt {R0 R} (cur : cursor R0) (q : sql R) w :
  adapt q = None → execute cur q w = execute_stmt cur (run q) w.
Proof. intros Hq. unfold execute, execute_stmt. by rewrite Hq. Qed.

(** X13 — Start-up never fails.  Whatever the state of the server and
    whatever it does with [CREATE TABLE IF NOT EXISTS], [lifespan]
    reaches its [yield] without an exception.  If the server cannot be
    reached, nothing changes and one line "[startup] DB init error: ..."
    is printed; if the statement fails, the same line is printed with
    the server's message, the transaction is rolled back and the table
    is as before; if it succeeds, its effect is committed and nothing is
    printed.  In no case is a transaction left open. *)
Theorem lifespan_never_fails ddl w stdout :
  lifespan ddl w stdout
  = match fault w with
    | Some msg =>
        (Return (), w, stdout ++ ["[startup] DB init error: " +:+ msg])
    | None =>
        match ddl (todos w) (todos_id_seq w) with
        | inl (msg, seq) =>
            (Return (), served (todos w) seq w,
             stdout ++ ["[startup] DB init error: " +:+ msg])
        | inr a => (Return (), served (ans_table a) (ans_seq a) w, stdout)
        end
    end.
Proof.
  unfold lifespan, execute_stmt. step_handler.
  destruct (fault w) as [msg|] eqn:Hup; [done|]. on_fresh_connection.
  destruct (ddl (todos w) (todos_id_seq w)) as [[msg seq]|a];
    on_fresh_connection; unfold served; by rewrite Hup.
Qed.
